(** * Page transition controller: usePageTransition (TransitionWrapper/service.ts)

    Shallow embedding of the React hook [usePageTransition].  The hook's
    React state ([isTransitioning], [isEntering]), its refs
    ([pendingPathRef], [isFirstMount], [wrapperRef]) and the listeners its
    effects keep registered on the wrapper element are one record; each
    external event (a document click, an [animationend] delivered to the
    wrapper, a path change reported by the router) is one step.  Handlers
    are written as the list of commands they issue ([preventDefault],
    [stopPropagation], ref writes, [setState] calls, [router.push]); a step
    applies them and then commits, re-running each effect whose
    dependencies changed (its cleanup removes the previous listener). *)

From Stdlib Require Import String Ascii Bool List Arith Lia.
Import ListNotations.
Open Scope string_scope.

(** ** URLs and the DOM *)

(** A parsed absolute URL, as the browser resolves [HTMLAnchorElement.href].
    [port] is the empty string for the scheme's default port; [username] and
    [password] are empty when the URL carries no credentials. *)
Record url := mkUrl {
  protocol : string;  (* "http:" *)
  username : string;
  password : string;
  hostname : string;
  port : string;
  pathname : string;
  search : string;
  hash : string
}.

Definition port_part (p : string) : string :=
  if String.eqb p "" then "" else ":" ++ p.

(** [URL.origin] / [window.location.origin]. *)
Definition url_origin (u : url) : string :=
  protocol u ++ "//" ++ hostname u ++ port_part (port u).

(** The credentials of a serialised URL: [username[:password]@]. *)
Definition userinfo_part (u : url) : string :=
  if String.eqb (username u) "" && String.eqb (password u) "" then ""
  else username u ++ (if String.eqb (password u) "" then "" else ":" ++ password u) ++ "@".

(** [URL.href]: the serialisation of the URL (credentials included, unlike
    [URL.origin]). *)
Definition url_href (u : url) : string :=
  protocol u ++ "//" ++ userinfo_part u ++ hostname u ++ port_part (port u)
  ++ pathname u ++ search u ++ hash u.

(** The namespace of an element: [closest("a")] matches HTML and SVG [a]
    elements alike. *)
Inductive namespace := HTML | SVG.

(** A DOM element: its local name, its namespace and, for an anchor, its
    resolved [href] ([None] when the element carries no [href] attribute). *)
Record element := mkElement {
  tagName : string;
  ns : namespace;
  elem_href : option url
}.

(** [link.href] of an HTML anchor: the serialised URL, or the empty string
    without an [href] attribute.  (On an SVG [a] it is an
    [SVGAnimatedString] object, not a string.) *)
Definition link_href (l : element) : string :=
  match elem_href l with
  | Some u => url_href u
  | None => ""
  end.

(** [new URL(link.href).pathname]: parsing the serialised href gives back the
    URL the browser resolved. *)
Definition link_url_pathname (l : element) : string :=
  match elem_href l with
  | Some u => pathname u
  | None => ""
  end.

(** [target.closest("a")]: the event target followed by its ancestors,
    innermost first. *)
Fixpoint closest_a (path : list element) : option element :=
  match path with
  | [] => None
  | e :: rest => if String.eqb (tagName e) "a" then Some e else closest_a rest
  end.

(** An [animationend] event: the animation's name and the id of the element
    it fired on ([e.target]); the listener's element is [e.currentTarget]. *)
Record animation_event := mkAnimationEvent {
  animationName : string;
  ev_target : nat
}.

(** ** Hook state *)

Record state := mkState {
  isTransitioning : bool;             (* useState(false) *)
  isEntering : bool;                  (* useState(false) *)
  cur_pathname : string;              (* usePathname() *)
  location : url;                     (* window.location *)
  pendingPath : option string;        (* pendingPathRef.current *)
  isFirstMount : bool;                (* isFirstMount.current *)
  wrapper : option nat;               (* wrapperRef.current *)
  exitListener : option (nat * string); (* element, captured targetPath *)
  entryListener : option nat          (* element *)
}.

(** Commands issued by handlers and effects. *)
Inductive cmd :=
| PreventDefault
| StopPropagation
| SetPendingPath (p : option string)
| SetIsTransitioning (b : bool)
| SetIsEntering (b : bool)
| SetIsFirstMount (b : bool)
| RouterPush (p : string).

Definition apply_cmd (s : state) (c : cmd) : state :=
  match c with
  | SetPendingPath p =>
      mkState (isTransitioning s) (isEntering s) (cur_pathname s) (location s)
        p (isFirstMount s) (wrapper s) (exitListener s) (entryListener s)
  | SetIsTransitioning b =>
      mkState b (isEntering s) (cur_pathname s) (location s)
        (pendingPath s) (isFirstMount s) (wrapper s) (exitListener s) (entryListener s)
  | SetIsEntering b =>
      mkState (isTransitioning s) b (cur_pathname s) (location s)
        (pendingPath s) (isFirstMount s) (wrapper s) (exitListener s) (entryListener s)
  | SetIsFirstMount b =>
      mkState (isTransitioning s) (isEntering s) (cur_pathname s) (location s)
        (pendingPath s) b (wrapper s) (exitListener s) (entryListener s)
  | PreventDefault | StopPropagation | RouterPush _ => s
  end.

Definition apply_cmds (s : state) (cs : list cmd) : state :=
  fold_left apply_cmd cs s.

(** ** The hook's code *)

Definition ANIMATION_SLIDE_OUT : string := "maskFadeOut".
Definition ANIMATION_SLIDE_IN : string := "maskFadeIn".

(** Effect on [pathname] (lines 53-60). *)
Definition pathname_effect (s : state) : list cmd :=
  if negb (isFirstMount s) then [SetIsEntering true; SetIsTransitioning false]
  else [SetIsFirstMount false].

(** [isSameOriginLink] (lines 63-65): [href.startsWith(window.location.origin)]. *)
Definition isSameOriginLink (s : state) (href : string) : bool :=
  String.prefix (url_origin (location s)) href.

(** [isNavigableLink] (lines 68-76); [None] when it throws.  On an SVG [a],
    [link.href] is an [SVGAnimatedString]: [!link.href] is false and
    [href.startsWith] is not a function, a [TypeError]. *)
Definition isNavigableLink (s : state) (link : element) : option bool :=
  match ns link with
  | SVG => None
  | HTML =>
      Some (if String.eqb (link_href link) "" || negb (isSameOriginLink s (link_href link))
            then false
            else negb (String.eqb (link_url_pathname link) (cur_pathname s)))
  end.

(** [handleClick] (lines 80-92); the click is given by the target and its
    ancestors. *)
Definition handleClick (s : state) (target_path : list element) : list cmd :=
  match closest_a target_path with
  | Some link =>
      match isNavigableLink s link with
      | Some true =>
          [PreventDefault; StopPropagation;
           SetPendingPath (Some (link_url_pathname link));
           SetIsTransitioning true]
      | Some false => []
      | None => []  (* the listener throws before any command; the click
                       goes on to its default action *)
      end
  | None => []
  end.

(** [createAnimationEndHandler] (lines 99-105), applied to the event and the
    listener's element ([e.currentTarget]). *)
Definition createAnimationEndHandler (name : string) (onComplete : list cmd)
    (e : animation_event) (currentTarget : nat) : list cmd :=
  if String.eqb (animationName e) name && Nat.eqb (ev_target e) currentTarget
  then onComplete else [].

(** Exit-phase effect (lines 108-122): the listener it registers, if any. *)
Definition exit_effect (s : state) : option (nat * string) :=
  if negb (isTransitioning s) then None
  else match wrapper s, pendingPath s with
       | Some el, Some targetPath => Some (el, targetPath)
       | _, _ => None
       end.

(** The exit listener: [startTransition(() => router.push(targetPath))]. *)
Definition exit_handler (l : nat * string) (e : animation_event) : list cmd :=
  createAnimationEndHandler ANIMATION_SLIDE_OUT [RouterPush (snd l)] e (fst l).

(** Entry-phase effect (lines 125-136). *)
Definition entry_effect (s : state) : option nat :=
  if negb (isEntering s) then None
  else match wrapper s with
       | Some el => Some el
       | None => None
       end.

Definition entry_handler (el : nat) (e : animation_event) : list cmd :=
  createAnimationEndHandler ANIMATION_SLIDE_IN
    [SetIsEntering false; SetPendingPath None] e el.

Definition set_listeners (s : state) (x : option (nat * string)) (y : option nat)
    : state :=
  mkState (isTransitioning s) (isEntering s) (cur_pathname s) (location s)
    (pendingPath s) (isFirstMount s) (wrapper s) x y.

(** A commit after a render: an effect whose dependency changed is cleaned up
    and run again ([router] and [createAnimationEndHandler] are stable). *)
Definition commit (old new : state) : state :=
  set_listeners new
    (if Bool.eqb (isTransitioning old) (isTransitioning new)
     then exitListener new else exit_effect new)
    (if Bool.eqb (isEntering old) (isEntering new)
     then entryListener new else entry_effect new).

(** Router navigation to [p]: [usePathname()] and [window.location] follow. *)
Definition set_path (s : state) (p : string) : state :=
  let l := location s in
  mkState (isTransitioning s) (isEntering s) p
    (mkUrl (protocol l) (username l) (password l) (hostname l) (port l) p "" "")
    (pendingPath s) (isFirstMount s) (wrapper s) (exitListener s) (entryListener s).

Inductive event :=
| Click (target_path : list element)
| AnimationEnd (e : animation_event)
| PathChange (p : string).

(** Commands run on an [animationend] at the wrapper: the listeners that
    are registered on it. *)
Definition animation_cmds (s : state) (e : animation_event) : list cmd :=
  (match exitListener s with Some l => exit_handler l e | None => [] end ++
  match entryListener s with Some el => entry_handler el e | None => [] end)%list.

(** One step: the state after the event and the commands issued. *)
Definition step (s : state) (ev : event) : state * list cmd :=
  match ev with
  | Click tp =>
      let cs := handleClick s tp in (commit s (apply_cmds s cs), cs)
  | AnimationEnd e =>
      let cs := animation_cmds s e in (commit s (apply_cmds s cs), cs)
  | PathChange p =>
      if String.eqb p (cur_pathname s) then (s, [])
      else
        let s1 := set_path s p in
        let cs := pathname_effect s1 in
        (commit s1 (apply_cmds s1 cs), cs)
  end.

Fixpoint run (s : state) (evs : list event) : state * list cmd :=
  match evs with
  | [] => (s, [])
  | ev :: rest =>
      let '(s1, c1) := step s ev in
      let '(s2, c2) := run s1 rest in (s2, (c1 ++ c2)%list)
  end.

(** First mount: the wrapper [div] is attached to [wrapperRef], then the
    effects run in order; only the pathname effect does anything. *)
Definition initial_state (loc : url) (w : nat) : state :=
  mkState false false (pathname loc) loc None true (Some w) None None.

Definition mount (loc : url) (w : nat) : state :=
  let s0 := initial_state loc w in
  set_listeners (apply_cmds s0 (pathname_effect s0)) (exit_effect s0) (entry_effect s0).

Inductive reachable : state -> Prop :=
| reach_mount loc w : reachable (mount loc w)
| reach_step s ev : reachable s -> reachable (fst (step s ev)).

(** ** Concrete data used in the examples *)

Definition here : url := mkUrl "http:" "" "" "localhost" "3000" "/" "" "".
Definition at_path (p : string) : url := mkUrl "http:" "" "" "localhost" "3000" p "" "".
Definition anchor (u : url) : element := mkElement "a" HTML (Some u).
Definition span : element := mkElement "span" HTML None.
Definition W : nat := 1.
Definition s_mounted : state := mount here W.

(** Same origin in the sense of the URL standard: scheme, host and port. *)
Definition same_origin (u v : url) : bool :=
  String.eqb (protocol u) (protocol v) && String.eqb (hostname u) (hostname v)
  && String.eqb (port u) (port v).

Definition is_path_change (ev : event) : bool :=
  match ev with PathChange _ => true | _ => false end.

Definition sets_exiting (c : cmd) : bool :=
  match c with SetIsTransitioning true => true | _ => false end.

(** ** Rendering *)

(** [className] (line 138). *)
Definition className (s : state) : string :=
  "transition-wrapper " ++ (if isTransitioning s then "transitioning" else "")
  ++ " " ++ (if isEntering s then "entering" else "").

(** The class list the browser reads from a [class] attribute: the tokens
    between spaces, empty ones dropped. *)
Fixpoint class_tokens_from (cur : string) (s : string) : list string :=
  match s with
  | EmptyString => if String.eqb cur "" then [] else [cur]
  | String c rest =>
      if Ascii.eqb c " "
      then ((if String.eqb cur "" then [] else [cur]) ++ class_tokens_from "" rest)%list
      else class_tokens_from (cur ++ String c EmptyString) rest
  end.

Definition class_tokens (s : string) : list string := class_tokens_from "" s.

(** ** The application's pages *)

(** [<Link href=...>] of a page rendered at [loc]: an [a] element whose
    [href] resolves against the document's URL. *)
Definition page_link (loc : url) (p : string) : element :=
  mkElement "a" HTML (Some (mkUrl (protocol loc) (username loc) (password loc) (hostname loc) (port loc) p "" "")).

(** A click on a page's link: the [a] inside [main], inside the wrapper
    [div] of [TransitionWrapper], inside [body] and [html] (RootLayout). *)
Definition page_click (loc : url) (p : string) : list element :=
  [page_link loc p; mkElement "main" HTML None; mkElement "div" HTML None;
   mkElement "body" HTML None; mkElement "html" HTML None].

(** [Home] links to [/sample]; [SamplePage] links back to [/]. *)
Definition home_click (loc : url) : list element := page_click loc "/sample".
Definition sample_click (loc : url) : list element := page_click loc "/".

(** ** Small examples *)

(** The spec's scenario: a click on [/sample] from [/], the exit animation,
    the router's path change and the entry animation end back in idle. *)
Example scenario_sample :
  run s_mounted
    [Click [span; anchor (at_path "/sample")];
     AnimationEnd (mkAnimationEvent ANIMATION_SLIDE_OUT W);
     PathChange "/sample";
     AnimationEnd (mkAnimationEvent ANIMATION_SLIDE_IN W)]
  = (mkState false false "/sample" (at_path "/sample") None false (Some W) None None,
     [PreventDefault; StopPropagation; SetPendingPath (Some "/sample");
      SetIsTransitioning true; RouterPush "/sample";
      SetIsEntering true; SetIsTransitioning false;
      SetIsEntering false; SetPendingPath None]).
Proof. reflexivity. Qed.

(** A click on a link to the current path is not intercepted. *)
Example same_path_ignored :
  step s_mounted (Click [anchor here]) = (s_mounted, []).
Proof. reflexivity. Qed.

(** ** General lemmas *)

Lemma prefix_app (s t : string) : String.prefix s (s ++ t) = true.
Proof.
  induction s as [|a s IH]; simpl.
  - destruct t; reflexivity.
  - destruct (ascii_dec a a) as [_|n]; [exact IH | contradiction n; reflexivity].
Qed.

Lemma apply_cmds_app (s : state) (a b : list cmd) :
  apply_cmds s (a ++ b) = apply_cmds (apply_cmds s a) b.
Proof. unfold apply_cmds. apply fold_left_app. Qed.

Lemma apply_cmds_frame (cs : list cmd) (s : state) :
  wrapper (apply_cmds s cs) = wrapper s /\
  exitListener (apply_cmds s cs) = exitListener s /\
  entryListener (apply_cmds s cs) = entryListener s /\
  cur_pathname (apply_cmds s cs) = cur_pathname s.
Proof.
  revert s; induction cs as [|c cs IH]; intro s; [repeat split|].
  destruct (IH (apply_cmd s c)) as (H1 & H2 & H3 & H4).
  unfold apply_cmds in *; simpl.
  rewrite H1, H2, H3, H4; destruct c; repeat split.
Qed.

Lemma set_listeners_same (s : state) :
  set_listeners s (exitListener s) (entryListener s) = s.
Proof. destruct s; reflexivity. Qed.

Lemma handleClick_cases (s : state) (tp : list element) :
  handleClick s tp = [] \/
  exists link, closest_a tp = Some link /\ isNavigableLink s link = Some true /\
    handleClick s tp =
      [PreventDefault; StopPropagation;
       SetPendingPath (Some (link_url_pathname link)); SetIsTransitioning true].
Proof.
  unfold handleClick; destruct (closest_a tp) as [link|]; [|left; reflexivity].
  destruct (isNavigableLink s link) as [[|]|] eqn:E;
    [right; exists link; auto | left; reflexivity | left; reflexivity].
Qed.

Lemma step_fst_run (s : state) (ev : event) (evs : list event) :
  fst (run s (ev :: evs)) = fst (run (fst (step s ev)) evs).
Proof.
  simpl; destruct (step s ev) as [s1 c1]; simpl.
  destruct (run s1 evs); reflexivity.
Qed.

Lemma reachable_run (s : state) (evs : list event) :
  reachable s -> reachable (fst (run s evs)).
Proof.
  revert s; induction evs as [|ev evs IH]; intros s H; [exact H|].
  rewrite step_fst_run; apply IH; constructor; exact H.
Qed.

Lemma string_app_assoc (a b c : string) : (a ++ b) ++ c = a ++ (b ++ c).
Proof. induction a as [|x a IH]; simpl; [reflexivity | rewrite IH; reflexivity]. Qed.

(** Without credentials, the serialisation starts with the origin. *)
Lemma url_href_no_userinfo (u : url) :
  username u = "" -> password u = "" ->
  url_href u = url_origin u ++ (pathname u ++ search u ++ hash u).
Proof.
  intros Hn Hp; unfold url_href, userinfo_part, url_origin; rewrite Hn, Hp; simpl.
  rewrite !string_app_assoc; f_equal; simpl; rewrite ?string_app_assoc; reflexivity.
Qed.

(** [isNavigableLink] on an HTML link without credentials that really is
    same-origin. *)
Lemma isNavigableLink_same_origin (s : state) (link : element) (u : url) :
  ns link = HTML -> elem_href link = Some u ->
  username u = "" -> password u = "" ->
  same_origin u (location s) = true ->
  isNavigableLink s link = Some (negb (String.eqb (pathname u) (cur_pathname s))).
Proof.
  intros Hns Hu Hun Hpw Ho; unfold isNavigableLink, isSameOriginLink, link_href, link_url_pathname.
  rewrite Hns, Hu.
  unfold same_origin in Ho; apply andb_prop in Ho as [Ho Hport];
    apply andb_prop in Ho as [Hproto Hhost].
  apply String.eqb_eq in Hproto, Hhost, Hport.
  assert (Eo : url_origin (location s) = url_origin u)
    by (unfold url_origin; rewrite Hproto, Hhost, Hport; reflexivity).
  rewrite (url_href_no_userinfo u Hun Hpw), Eo.
  assert (Ee : String.eqb (url_origin u ++ (pathname u ++ search u ++ hash u)) "" = false)
    by (unfold url_origin; destruct (protocol u); reflexivity).
  rewrite Ee, prefix_app; reflexivity.
Qed.

(** ** Navigation interceptor *)

(** Clicks without an enclosing anchor, on an anchor without [href], or on a
    link to the current path leave the hook untouched. *)
Lemma handleClick_ignored (s : state) (tp : list element) :
  (closest_a tp = None \/
   (exists link, closest_a tp = Some link /\ elem_href link = None) \/
   (exists link u, closest_a tp = Some link /\ elem_href link = Some u /\
                   pathname u = cur_pathname s)) ->
  step s (Click tp) = (s, []).
Proof.
  intros H.
  assert (Hc : handleClick s tp = []).
  { unfold handleClick.
    destruct H as [H | [[link [H Hh]] | [link [u [H [Hh Hp]]]]]]; rewrite H; [reflexivity| |].
    - unfold isNavigableLink, link_href; rewrite Hh; destruct (ns link); reflexivity.
    - unfold isNavigableLink, link_url_pathname; rewrite Hh, Hp, String.eqb_refl.
      destruct (ns link); [destruct (_ || _)|]; reflexivity. }
  simpl; rewrite Hc; unfold commit; simpl.
  rewrite !Bool.eqb_reflx; apply f_equal2; [apply set_listeners_same | reflexivity].
Qed.

(** A link to another origin whose serialisation starts with the current
    origin: [http://localhost:30001/x] seen from [http://localhost:3000]. *)
Definition other_origin_link : url := mkUrl "http:" "" "" "localhost" "30001" "/x" "" "".

(** C1 (code_bug): [isSameOriginLink] tests [href.startsWith(origin)], so a
    link to another port whose digits extend the current one is not ignored:
    it is treated as same-origin, its default navigation is cancelled and
    its path is recorded as the pending target. *)
Lemma C1_other_port_link_intercepted :
  same_origin other_origin_link (location s_mounted) = false /\
  step s_mounted (Click [span; anchor other_origin_link]) =
    (mkState true false "/" here (Some "/x") false (Some W) (Some (W, "/x")) None,
     [PreventDefault; StopPropagation; SetPendingPath (Some "/x");
      SetIsTransitioning true]).
Proof. split; reflexivity. Qed.

(** The case that does hold: a click whose nearest anchor is an HTML anchor
    to a same-origin URL without credentials and with a different path has
    its default action and propagation cancelled, the destination's path
    recorded as pending target and [isTransitioning] set to true, by exactly
    one command. *)
Lemma same_origin_html_click_intercepted (s : state) (tp : list element)
    (link : element) (u : url) :
  closest_a tp = Some link -> ns link = HTML -> elem_href link = Some u ->
  username u = "" -> password u = "" ->
  same_origin u (location s) = true -> pathname u <> cur_pathname s ->
  snd (step s (Click tp)) =
    [PreventDefault; StopPropagation; SetPendingPath (Some (pathname u));
     SetIsTransitioning true] /\
  isTransitioning (fst (step s (Click tp))) = true /\
  pendingPath (fst (step s (Click tp))) = Some (pathname u) /\
  length (filter sets_exiting (snd (step s (Click tp)))) = 1.
Proof.
  intros Hc Hns Hh Hun Hpw Ho Hp.
  assert (Hn : isNavigableLink s link = Some true).
  { rewrite (isNavigableLink_same_origin s link u Hns Hh Hun Hpw Ho).
    apply String.eqb_neq in Hp; rewrite Hp; reflexivity. }
  assert (Hcl : handleClick s tp =
    [PreventDefault; StopPropagation; SetPendingPath (Some (pathname u));
     SetIsTransitioning true]).
  { unfold handleClick; rewrite Hc, Hn; unfold link_url_pathname; rewrite Hh; reflexivity. }
  simpl; rewrite Hcl; repeat split.
Qed.

(** A same-origin link whose URL carries credentials:
    [http://u@localhost:3000/x] seen from [http://localhost:3000/]. *)
Definition userinfo_link : url := mkUrl "http:" "u" "" "localhost" "3000" "/x" "" "".

(** An [a] element of an inline SVG. *)
Definition svg_anchor (u : url) : element := mkElement "a" SVG (Some u).

(** C2 (code_bug): not every click on a same-origin link to another path is
    intercepted.  [href.startsWith(origin)] fails on a serialisation with
    credentials, and on an SVG [a] the check throws; in both cases the hook
    issues no command and its state is unchanged, so the browser's default
    navigation proceeds. *)
Lemma C2_same_origin_link_not_intercepted :
  same_origin userinfo_link (location s_mounted) = true /\
  pathname userinfo_link <> cur_pathname s_mounted /\
  step s_mounted (Click [span; anchor userinfo_link]) = (s_mounted, []) /\
  same_origin (at_path "/sample") (location s_mounted) = true /\
  pathname (at_path "/sample") <> cur_pathname s_mounted /\
  closest_a [span; svg_anchor (at_path "/sample")] = Some (svg_anchor (at_path "/sample")) /\
  step s_mounted (Click [span; svg_anchor (at_path "/sample")]) = (s_mounted, []).
Proof.
  repeat split; try reflexivity; discriminate.
Qed.

(** ** Exit phase *)

(** Outside path changes, [isTransitioning] never goes back to false and the
    exit listener stays the one registered when it became true. *)
Lemma step_keeps_exit_listener (s : state) (ev : event) :
  is_path_change ev = false -> isTransitioning s = true ->
  isTransitioning (fst (step s ev)) = true /\
  exitListener (fst (step s ev)) = exitListener s.
Proof.
  intros Hev Ht; destruct ev as [tp | e | p]; [| | discriminate].
  - simpl; destruct (handleClick_cases s tp) as [Hc | [link [_ [_ Hc]]]]; rewrite Hc;
      unfold commit; simpl; rewrite Ht; simpl; split; try reflexivity;
      apply apply_cmds_frame.
  - simpl.
    assert (Ht' : isTransitioning (apply_cmds s (animation_cmds s e)) = true).
    { unfold animation_cmds, exit_handler, entry_handler, createAnimationEndHandler.
      destruct (exitListener s) as [[w t]|]; destruct (entryListener s) as [el|];
        repeat destruct (_ && _); exact Ht. }
    unfold commit; simpl; rewrite Ht, Ht'; simpl; split; [reflexivity|].
    apply apply_cmds_frame.
Qed.

Lemma run_keeps_exit_listener (evs : list event) (s : state) :
  forallb (fun ev => negb (is_path_change ev)) evs = true -> isTransitioning s = true ->
  isTransitioning (fst (run s evs)) = true /\
  exitListener (fst (run s evs)) = exitListener s.
Proof.
  revert s; induction evs as [|ev evs IH]; intros s Hevs Ht; [split; auto|].
  simpl in Hevs; apply andb_prop in Hevs as [Hev Hevs]; apply negb_true_iff in Hev.
  rewrite step_fst_run.
  destruct (step_keeps_exit_listener s ev Hev Ht) as [Ht1 Hl1].
  destruct (IH _ Hevs Ht1) as [Ht2 Hl2]; rewrite Hl2, Hl1; auto.
Qed.

(** C3 (counterexample): two clicks during one exit phase; the second
    overwrites the pending target with [/b], but the exit listener was
    registered with [/a] and the navigation goes to [/a]. *)
Lemma C3_second_click_not_followed :
  pendingPath (fst (run s_mounted [Click [anchor (at_path "/a")];
                                   Click [anchor (at_path "/b")]])) = Some "/b" /\
  snd (step (fst (run s_mounted [Click [anchor (at_path "/a")];
                                 Click [anchor (at_path "/b")]]))
            (AnimationEnd (mkAnimationEvent ANIMATION_SLIDE_OUT W)))
  = [RouterPush "/a"].
Proof. split; reflexivity. Qed.

(** C3 (amended): starting from a state that is not exiting, an intercepted
    click to path [p]; whatever clicks or animation ends follow (no path
    change), the matching exit completion requests navigation to [p] and
    nothing else, even if [pendingPathRef] was overwritten meanwhile. *)
Lemma C3_navigation_uses_captured_target (s : state) (w : nat) (tp : list element)
    (link : element) (evs : list event) (e : animation_event) :
  wrapper s = Some w -> isTransitioning s = false ->
  closest_a tp = Some link -> isNavigableLink s link = Some true ->
  forallb (fun ev => negb (is_path_change ev)) evs = true ->
  animationName e = ANIMATION_SLIDE_OUT -> ev_target e = w ->
  snd (step (fst (run (fst (step s (Click tp))) evs)) (AnimationEnd e))
  = [RouterPush (link_url_pathname link)].
Proof.
  intros Hw Ht Hc Hn Hevs Hname Htarget.
  assert (Hcl : handleClick s tp =
    [PreventDefault; StopPropagation;
     SetPendingPath (Some (link_url_pathname link)); SetIsTransitioning true])
    by (unfold handleClick; rewrite Hc, Hn; reflexivity).
  set (s1 := fst (step s (Click tp))).
  assert (H1 : isTransitioning s1 = true /\
               exitListener s1 = Some (w, link_url_pathname link)).
  { unfold s1; simpl; rewrite Hcl; unfold commit; simpl; rewrite Ht; simpl.
    unfold exit_effect; simpl; rewrite Hw; split; reflexivity. }
  destruct H1 as [Ht1 Hl1].
  destruct (run_keeps_exit_listener evs s1 Hevs Ht1) as [_ Hl2].
  simpl; unfold animation_cmds; rewrite Hl2, Hl1.
  unfold exit_handler, entry_handler, createAnimationEndHandler; simpl.
  rewrite Hname, Htarget, Nat.eqb_refl; simpl.
  destruct (entryListener _); reflexivity.
Qed.

Lemma C3_witness :
  snd (step (fst (run (fst (step s_mounted (Click [anchor (at_path "/a")])))
                      [Click [anchor (at_path "/b")]]))
            (AnimationEnd (mkAnimationEvent ANIMATION_SLIDE_OUT W)))
  = [RouterPush "/a"].
Proof.
  apply (C3_navigation_uses_captured_target s_mounted W [anchor (at_path "/a")]
           (anchor (at_path "/a")) [Click [anchor (at_path "/b")]]
           (mkAnimationEvent ANIMATION_SLIDE_OUT W)); reflexivity.
Defined.

(** ** Reachable states *)

(** What every reachable state satisfies: the first-mount flag is spent, the
    wrapper is attached, the entry listener is the one the entry effect
    registers, and a pending target only exists during a phase. *)
Definition inv (s : state) : Prop :=
  isFirstMount s = false /\ (exists w, wrapper s = Some w) /\
  entryListener s = entry_effect s /\
  (pendingPath s <> None -> isTransitioning s || isEntering s = true).

Ltac close_inv Hp :=
  repeat split; try (eexists; reflexivity); try reflexivity;
  try (let Hn := fresh in
       intros Hn; first [ reflexivity | exact (Hp Hn) | now contradiction Hn ]).

Lemma mount_inv (loc : url) (w : nat) : inv (mount loc w).
Proof. close_inv I. Qed.

Lemma step_inv (s : state) (ev : event) : inv s -> inv (fst (step s ev)).
Proof.
  destruct s as [t en path loc pend fm wr xl el].
  intros (Hf & [w Hw] & He & Hp); simpl in Hf, Hw, Hp; subst fm wr.
  unfold entry_effect in He; simpl in He; destruct en; simpl in He; subst el.
  all: destruct ev as [tp | e | p].
  all: lazymatch goal with
       | |- inv (fst (step ?s (Click ?tp))) =>
           destruct (handleClick_cases s tp) as [Hc | [link [_ [_ Hc]]]];
           simpl; rewrite Hc; unfold commit; destruct t; simpl; close_inv Hp
       | |- inv (fst (step _ (AnimationEnd _))) =>
           simpl; unfold animation_cmds, exit_handler, entry_handler,
             createAnimationEndHandler;
           destruct xl as [[w1 t1]|]; simpl;
           repeat (destruct (_ && _)); unfold commit; destruct t; simpl; close_inv Hp
       | |- _ =>
           simpl; destruct (String.eqb p path); [simpl; close_inv Hp|];
           unfold commit; destruct t; simpl; close_inv Hp
       end.
Qed.

Lemma reachable_inv (s : state) : reachable s -> inv s.
Proof.
  induction 1 as [loc w | s ev _ IH]; [apply mount_inv | apply step_inv; exact IH].
Qed.

Lemma handler_filter (name : string) (oc : list cmd) (e : animation_event) (ct : nat) :
  animationName e <> name \/ ev_target e <> ct ->
  createAnimationEndHandler name oc e ct = [].
Proof.
  intros H; unfold createAnimationEndHandler.
  destruct H as [H | H];
    [apply String.eqb_neq in H; rewrite H | apply Nat.eqb_neq in H; rewrite H, andb_false_r];
    reflexivity.
Qed.

Lemma entry_handler_no_push (el : nat) (e : animation_event) (p : string) :
  ~ In (RouterPush p) (entry_handler el e).
Proof.
  unfold entry_handler, createAnimationEndHandler; destruct (_ && _); simpl;
    intuition discriminate.
Qed.

(** ** Phase flags *)

(** C4 (counterexample): after the spec's click, exit animation and path
    change, a click on a link back to [/] during the entry animation gives a
    reachable state where both flags are true. *)
(** The entry phase after a navigation from [/] to [/sample]. *)
Definition s_entering : state :=
  fst (run s_mounted [Click [anchor (at_path "/sample")];
                      AnimationEnd (mkAnimationEvent ANIMATION_SLIDE_OUT W);
                      PathChange "/sample"]).

Definition s_both : state :=
  fst (run s_mounted [Click [anchor (at_path "/sample")];
                      AnimationEnd (mkAnimationEvent ANIMATION_SLIDE_OUT W);
                      PathChange "/sample";
                      Click [anchor here]]).

Lemma C4_both_flags_reachable :
  reachable s_both /\ isTransitioning s_both = true /\ isEntering s_both = true.
Proof.
  split; [apply reachable_run; constructor | split; reflexivity].
Qed.

(** C4 (amended): an intercepted click taken while [isEntering] is true
    sets [isTransitioning] and leaves [isEntering] true; conversely a step
    that turns "not both" into "both true" is always such a click; and the
    state after mount has both flags false. *)
Lemma C4_both_flags_only_by_click_while_entering (s : state) (ev : event) :
  (forall tp, isEntering s = true -> handleClick s tp <> [] ->
     isTransitioning (fst (step s (Click tp))) = true /\
     isEntering (fst (step s (Click tp))) = true) /\
  (isTransitioning s && isEntering s = false ->
   isTransitioning (fst (step s ev)) && isEntering (fst (step s ev)) = true ->
   exists tp, ev = Click tp /\ handleClick s tp <> [] /\ isEntering s = true) /\
  (forall loc w, isTransitioning (mount loc w) = false /\ isEntering (mount loc w) = false).
Proof.
  split; [|split; [|split; reflexivity]].
  - intros tp He Hne.
    destruct s as [t en path loc pend fm wr xl el]; simpl in He; subst en.
    destruct (handleClick_cases (mkState t true path loc pend fm wr xl el) tp)
      as [Hc | [link [_ [_ Hc]]]]; [contradiction|].
    simpl; rewrite Hc; unfold commit; destruct t; simpl; split; reflexivity.
  - intros H0 H1.
    destruct s as [t en path loc pend fm wr xl el]; simpl in H0.
    destruct ev as [tp | e | p].
    + destruct (handleClick_cases (mkState t en path loc pend fm wr xl el) tp)
        as [Hc | [link [_ [_ Hc]]]];
        simpl in H1; rewrite Hc in H1; unfold commit in H1; destruct t, en;
        simpl in H0, H1; try discriminate.
      exists tp; rewrite Hc; split; [reflexivity | split; [intro Hd; discriminate Hd | reflexivity]].
    + exfalso; simpl in H1; unfold animation_cmds, exit_handler, entry_handler,
        createAnimationEndHandler in H1.
      destruct xl as [[w1 t1]|]; destruct el as [el|]; destruct t, en; simpl in *;
        repeat match goal with H : context [if ?b then _ else _] |- _ => destruct b end;
        simpl in *; discriminate.
    + exfalso; simpl in H1; destruct (String.eqb p path); [simpl in H1; congruence|].
      unfold pathname_effect in H1; destruct fm, t, en; simpl in *; discriminate.
Qed.

Lemma C4_witness :
  (isTransitioning (fst (step s_entering (Click [anchor here]))) = true /\
   isEntering (fst (step s_entering (Click [anchor here]))) = true) /\
  (exists tp, Click [anchor here] = Click tp /\
     handleClick s_entering tp <> [] /\ isEntering s_entering = true) /\
  (forall loc w, isTransitioning (mount loc w) = false /\ isEntering (mount loc w) = false).
Proof.
  destruct (C4_both_flags_only_by_click_while_entering s_entering (Click [anchor here]))
    as (Hfwd & Hback & Hmount).
  split; [|split; [|exact Hmount]].
  - apply Hfwd; vm_compute; [reflexivity | discriminate].
  - apply Hback; vm_compute; reflexivity.
Defined.

(** ** Entry phase *)

(** C5: from any reachable state, a path change followed by the matching
    [maskFadeIn] completion on the wrapper returns to idle. *)
Lemma C5_round_trip_to_idle (s : state) (p : string) (w : nat) :
  reachable s -> wrapper s = Some w -> p <> cur_pathname s ->
  isEntering (fst (step s (PathChange p))) = true /\
  isTransitioning (fst (step (fst (step s (PathChange p)))
                            (AnimationEnd (mkAnimationEvent ANIMATION_SLIDE_IN w)))) = false /\
  isEntering (fst (step (fst (step s (PathChange p)))
                        (AnimationEnd (mkAnimationEvent ANIMATION_SLIDE_IN w)))) = false /\
  pendingPath (fst (step (fst (step s (PathChange p)))
                         (AnimationEnd (mkAnimationEvent ANIMATION_SLIDE_IN w)))) = None.
Proof.
  intros Hr Hw Hp.
  destruct (reachable_inv s Hr) as (Hf & _ & He & _).
  destruct s as [t en path loc pend fm wr xl el]; simpl in Hf, Hw, He, Hp; subst fm wr.
  apply String.eqb_neq in Hp.
  simpl; rewrite Hp; unfold pathname_effect, commit, entry_effect in *; simpl in *.
  destruct t, en; simpl in *; subst el;
    unfold animation_cmds, exit_handler, entry_handler, createAnimationEndHandler; simpl;
    try destruct xl as [[w1 t1]|]; simpl; rewrite ?Nat.eqb_refl; simpl;
    repeat split.
Qed.

Lemma C5_witness :
  isEntering (fst (step s_mounted (PathChange "/sample"))) = true /\
  isTransitioning (fst (step (fst (step s_mounted (PathChange "/sample")))
                            (AnimationEnd (mkAnimationEvent ANIMATION_SLIDE_IN W)))) = false /\
  isEntering (fst (step (fst (step s_mounted (PathChange "/sample")))
                        (AnimationEnd (mkAnimationEvent ANIMATION_SLIDE_IN W)))) = false /\
  pendingPath (fst (step (fst (step s_mounted (PathChange "/sample")))
                         (AnimationEnd (mkAnimationEvent ANIMATION_SLIDE_IN W)))) = None.
Proof.
  apply (C5_round_trip_to_idle s_mounted "/sample" W);
    [constructor | reflexivity | discriminate].
Defined.

(** ** Animation-end filtering *)

(** C6: an [animationend] whose name is not the exit animation's, or whose
    target is not the listened element, makes the exit listener request no
    navigation; one that does not match the entry animation on the listened
    element makes the entry listener reset nothing. *)
Lemma C6_unmatched_animation_end_ignored (s : state) (e : animation_event) :
  ((forall l, exitListener s = Some l ->
              animationName e <> ANIMATION_SLIDE_OUT \/ ev_target e <> fst l) ->
   forall p, ~ In (RouterPush p) (snd (step s (AnimationEnd e)))) /\
  ((forall el, entryListener s = Some el ->
               animationName e <> ANIMATION_SLIDE_IN \/ ev_target e <> el) ->
   isEntering (fst (step s (AnimationEnd e))) = isEntering s /\
   pendingPath (fst (step s (AnimationEnd e))) = pendingPath s).
Proof.
  split; intros H; simpl; unfold animation_cmds.
  - intros p; destruct (exitListener s) as [l|].
    + unfold exit_handler; rewrite (handler_filter _ _ _ _ (H l eq_refl)); simpl.
      destruct (entryListener s); [apply entry_handler_no_push | simpl; auto].
    + destruct (entryListener s); [apply entry_handler_no_push | simpl; auto].
  - assert (He : match entryListener s with
                 | Some el => entry_handler el e | None => [] end = []).
    { destruct (entryListener s) as [el|]; [|reflexivity].
      apply handler_filter, (H el eq_refl). }
    rewrite He, app_nil_r.
    destruct (exitListener s) as [[w t]|]; unfold exit_handler, createAnimationEndHandler;
      simpl; [destruct (_ && _)|]; split; reflexivity.
Qed.

(** A state with both listeners registered, and an [animationend] of the
    entry animation bubbling from a descendant (element 2). *)
Lemma C6_witness :
  (forall p, ~ In (RouterPush p)
     (snd (step s_both (AnimationEnd (mkAnimationEvent ANIMATION_SLIDE_IN 2))))) /\
  isEntering (fst (step s_both (AnimationEnd (mkAnimationEvent ANIMATION_SLIDE_IN 2))))
    = isEntering s_both /\
  pendingPath (fst (step s_both (AnimationEnd (mkAnimationEvent ANIMATION_SLIDE_IN 2))))
    = pendingPath s_both.
Proof.
  destruct (C6_unmatched_animation_end_ignored s_both
              (mkAnimationEvent ANIMATION_SLIDE_IN 2)) as [A B].
  split; [apply A | apply B]; intros l Hl; vm_compute in Hl; injection Hl as <-;
    [left | right]; vm_compute; discriminate.
Defined.

(** ** Mount phase *)

(** C7: the first mount starts no entry animation whatever the path; the
    first-mount flag is then false in every reachable state, and every later
    path change sets [isEntering]. *)
Lemma C7_first_mount_then_every_path_change (s : state) (p : string) :
  (forall loc w, isEntering (mount loc w) = false /\
                 entryListener (mount loc w) = None /\
                 isFirstMount (mount loc w) = false) /\
  (reachable s -> isFirstMount s = false /\
     (p <> cur_pathname s ->
      isEntering (fst (step s (PathChange p))) = true /\
      isFirstMount (fst (step s (PathChange p))) = false)).
Proof.
  split; [intros; repeat split|].
  intros Hr; destruct (reachable_inv s Hr) as (Hf & _ & _ & _); split; [exact Hf|].
  intros Hp; apply String.eqb_neq in Hp.
  destruct s as [t en path loc pend fm wr xl el]; simpl in Hf, Hp; subst fm.
  simpl; rewrite Hp; unfold commit; simpl; split; reflexivity.
Qed.

Lemma C7_witness :
  isFirstMount s_mounted = false /\
  isEntering (fst (step s_mounted (PathChange "/sample"))) = true /\
  isFirstMount (fst (step s_mounted (PathChange "/sample"))) = false.
Proof.
  destruct (C7_first_mount_then_every_path_change s_mounted "/sample") as [_ H].
  destruct (H (reach_mount here W)) as [H1 H2]; split; [exact H1|].
  apply H2; discriminate.
Defined.

(** ** Exit completion frame *)

(** C8: the matching exit completion only issues [router.push]; it leaves
    [isTransitioning] and the pending target as they are.  Only a path change
    clears [isTransitioning], and only the entry completion (which also
    clears [isEntering]) clears the pending target. *)
Lemma C8_exit_completion_only_navigates (s : state) (w : nat) (t : string)
    (e : animation_event) :
  exitListener s = Some (w, t) -> animationName e = ANIMATION_SLIDE_OUT -> ev_target e = w ->
  snd (step s (AnimationEnd e)) = [RouterPush t] /\
  isTransitioning (fst (step s (AnimationEnd e))) = isTransitioning s /\
  pendingPath (fst (step s (AnimationEnd e))) = pendingPath s /\
  (forall s0 ev, isTransitioning s0 = true -> isTransitioning (fst (step s0 ev)) = false ->
     exists p, ev = PathChange p) /\
  (forall s0 ev, pendingPath s0 <> None -> pendingPath (fst (step s0 ev)) = None ->
     exists e0, ev = AnimationEnd e0 /\ isEntering (fst (step s0 ev)) = false).
Proof.
  intros Hx Hn Ht.
  assert (Hc : animation_cmds s e = [RouterPush t]).
  { unfold animation_cmds; rewrite Hx; unfold exit_handler, entry_handler,
      createAnimationEndHandler; simpl; rewrite Hn, Ht, Nat.eqb_refl; simpl.
    destruct (entryListener s); reflexivity. }
  split; [simpl; exact Hc|]; split; [simpl; rewrite Hc; reflexivity|].
  split; [simpl; rewrite Hc; reflexivity|].
  split; intros s0 ev H0 H1; destruct s0 as [t0 en0 path0 loc0 pend0 fm0 wr0 xl0 el0];
    simpl in H0; destruct ev as [tp | e0 | p].
  all: try (exists p; reflexivity).
  - destruct (handleClick_cases (mkState t0 en0 path0 loc0 pend0 fm0 wr0 xl0 el0) tp)
      as [Hc0 | [link [_ [_ Hc0]]]]; simpl in H1; rewrite Hc0 in H1; simpl in H1; congruence.
  - exfalso; simpl in H1; unfold animation_cmds, exit_handler, entry_handler,
      createAnimationEndHandler in H1.
    destruct xl0 as [[w1 t1]|]; destruct el0 as [el0|]; simpl in *;
      repeat match goal with H : context [if ?b then _ else _] |- _ => destruct b end;
      simpl in *; congruence.
  - destruct (handleClick_cases (mkState t0 en0 path0 loc0 pend0 fm0 wr0 xl0 el0) tp)
      as [Hc0 | [link [_ [_ Hc0]]]]; simpl in H1; rewrite Hc0 in H1; simpl in H1; congruence.
  - exists e0; split; [reflexivity|]; simpl in *.
    unfold animation_cmds, exit_handler, entry_handler, createAnimationEndHandler in *.
    destruct xl0 as [[w1 t1]|]; destruct el0 as [el0|]; simpl in *;
      repeat match goal with H : context [if ?b then _ else _] |- _ => destruct b end;
      simpl in *; congruence.
  - exfalso; simpl in H1; destruct (String.eqb p path0); simpl in H1; [congruence|].
    unfold pathname_effect in H1; destruct fm0; simpl in H1; congruence.
Qed.

Lemma C8_witness :
  snd (step (fst (step s_mounted (Click [anchor (at_path "/sample")])))
            (AnimationEnd (mkAnimationEvent ANIMATION_SLIDE_OUT W))) = [RouterPush "/sample"].
Proof.
  apply (C8_exit_completion_only_navigates
           (fst (step s_mounted (Click [anchor (at_path "/sample")]))) W "/sample"
           (mkAnimationEvent ANIMATION_SLIDE_OUT W)); reflexivity.
Defined.

(** ** Pending target *)

(** C9: in every reachable state a pending target exists only while
    [isTransitioning] or [isEntering] holds; a step changes the pending
    target only when it is an intercepted click (which also sets
    [isTransitioning]) or an entry completion (which clears it and
    [isEntering]). *)
Lemma C9_pending_only_during_phase (s : state) (ev : event) :
  reachable s ->
  (pendingPath s <> None -> isTransitioning s || isEntering s = true) /\
  (pendingPath (fst (step s ev)) <> pendingPath s ->
   (exists tp p, ev = Click tp /\ handleClick s tp <> [] /\
      pendingPath (fst (step s ev)) = Some p /\ isTransitioning (fst (step s ev)) = true) \/
   (exists e, ev = AnimationEnd e /\
      pendingPath (fst (step s ev)) = None /\ isEntering (fst (step s ev)) = false)).
Proof.
  intros Hr; destruct (reachable_inv s Hr) as (_ & _ & _ & Hp); split; [exact Hp|].
  intros Hd; destruct s as [t en path loc pend fm wr xl el].
  destruct ev as [tp | e | p].
  - left; destruct (handleClick_cases (mkState t en path loc pend fm wr xl el) tp)
      as [Hc | [link [_ [_ Hc]]]]; simpl in Hd; rewrite Hc in Hd; simpl in Hd;
      [congruence|].
    exists tp, (link_url_pathname link); simpl; rewrite Hc; repeat split.
    all: try (intro Hn; discriminate Hn).
  - right; exists e; split; [reflexivity|]; simpl in *.
    unfold animation_cmds, exit_handler, entry_handler, createAnimationEndHandler in *.
    destruct xl as [[w1 t1]|]; destruct el as [el|]; simpl in *;
      repeat match goal with H : context [if ?b then _ else _] |- _ => destruct b end;
      simpl in *; split; congruence.
  - exfalso; simpl in Hd; destruct (String.eqb p path); simpl in Hd; [congruence|].
    unfold pathname_effect in Hd; destruct fm; simpl in Hd; congruence.
Qed.

Lemma C9_witness :
  (pendingPath s_both <> None -> isTransitioning s_both || isEntering s_both = true) /\
  (pendingPath (fst (step s_both (AnimationEnd (mkAnimationEvent ANIMATION_SLIDE_IN W))))
     <> pendingPath s_both ->
   (exists tp p, AnimationEnd (mkAnimationEvent ANIMATION_SLIDE_IN W) = Click tp /\
      handleClick s_both tp <> [] /\
      pendingPath (fst (step s_both (AnimationEnd (mkAnimationEvent ANIMATION_SLIDE_IN W))))
        = Some p /\
      isTransitioning (fst (step s_both (AnimationEnd (mkAnimationEvent ANIMATION_SLIDE_IN W))))
        = true) \/
   (exists e, AnimationEnd (mkAnimationEvent ANIMATION_SLIDE_IN W) = AnimationEnd e /\
      pendingPath (fst (step s_both (AnimationEnd (mkAnimationEvent ANIMATION_SLIDE_IN W))))
        = None /\
      isEntering (fst (step s_both (AnimationEnd (mkAnimationEvent ANIMATION_SLIDE_IN W))))
        = false)).
Proof.
  apply (C9_pending_only_during_phase s_both
           (AnimationEnd (mkAnimationEvent ANIMATION_SLIDE_IN W))).
  apply reachable_run; constructor.
Defined.

(** ** Exit effect without a listener *)

(** C10: when [isTransitioning] is true but the pending target or the
    wrapper is missing, the exit effect registers no listener, and with no
    exit listener no [animationend] leads to a navigation request. *)
Lemma C10_no_exit_listener_no_navigation (s : state) :
  isTransitioning s = true -> (pendingPath s = None \/ wrapper s = None) ->
  exit_effect s = None /\
  (forall e p, ~ In (RouterPush p)
     (snd (step (set_listeners s (exit_effect s) (entryListener s)) (AnimationEnd e)))).
Proof.
  intros Ht Hm.
  assert (Hx : exit_effect s = None).
  { unfold exit_effect; rewrite Ht; simpl.
    destruct Hm as [Hm | Hm]; rewrite Hm; [destruct (wrapper s)|]; reflexivity. }
  split; [exact Hx|]; rewrite Hx; intros e p; simpl; unfold animation_cmds; simpl.
  destruct (entryListener s); [apply entry_handler_no_push | simpl; auto].
Qed.

Lemma C10_witness :
  exit_effect (mkState true false "/" here None false (Some W) None None) = None.
Proof.
  apply (C10_no_exit_listener_no_navigation
           (mkState true false "/" here None false (Some W) None None));
    [reflexivity | left; reflexivity].
Defined.

(** * Further properties of the hook *)

(** ** Rendered class list *)

(** The wrapper's class list is [transition-wrapper], plus [transitioning]
    exactly while exiting and [entering] exactly while entering; both
    appear together when both flags are set. *)
Lemma className_tokens (s : state) :
  class_tokens (className s) =
    ("transition-wrapper" :: (if isTransitioning s then ["transitioning"] else [])
     ++ (if isEntering s then ["entering"] else []))%list.
Proof.
  unfold className; destruct (isTransitioning s), (isEntering s); reflexivity.
Qed.

(** ** Exit listener invariant *)

(** The exit listener, when present, sits on the wrapper element and
    exists exactly while [isTransitioning] is true. *)
Definition exit_inv (s : state) : Prop :=
  match exitListener s with
  | None => isTransitioning s = false
  | Some (el, _) => isTransitioning s = true /\ wrapper s = Some el
  end.

Ltac close_exit :=
  simpl in *; first [ reflexivity | split; reflexivity | assumption | tauto ].

Lemma step_exit_inv (s : state) (ev : event) :
  inv s -> exit_inv s -> exit_inv (fst (step s ev)).
Proof.
  destruct s as [t en path loc pend fm wr xl el].
  intros (Hf & [w Hw] & _ & _) Hx; simpl in Hf, Hw; subst fm wr.
  unfold exit_inv in Hx; simpl in Hx.
  destruct ev as [tp | e | p].
  - destruct (handleClick_cases (mkState t en path loc pend false (Some w) xl el) tp)
      as [Hc | [link [_ [_ Hc]]]]; unfold exit_inv; simpl; rewrite Hc;
      unfold commit; destruct xl as [[w1 t1]|]; destruct t; close_exit.
  - unfold exit_inv; simpl; unfold animation_cmds, exit_handler, entry_handler,
      createAnimationEndHandler.
    destruct xl as [[w1 t1]|]; destruct el as [el|]; simpl;
      repeat (destruct (_ && _)); unfold commit; destruct t, en; close_exit.
  - unfold exit_inv; simpl; destruct (String.eqb p path); [close_exit|].
    unfold commit; destruct xl as [[w1 t1]|]; destruct t, en; close_exit.
Qed.

Lemma reachable_exit_inv (s : state) : reachable s -> exit_inv s.
Proof.
  intros Hr; induction Hr as [loc w | s ev Hr IH]; [reflexivity|].
  apply step_exit_inv; [apply reachable_inv; exact Hr | exact IH].
Qed.

(** In every reachable state an exit listener is registered exactly while
    [isTransitioning] is true and an entry listener exactly while
    [isEntering] is true, both on the wrapper element. *)
Lemma listeners_follow_flags (s : state) :
  reachable s ->
  exists w, wrapper s = Some w /\
    (isTransitioning s = true <-> exists t, exitListener s = Some (w, t)) /\
    (isEntering s = true <-> entryListener s = Some w).
Proof.
  intros Hr; destruct (reachable_inv s Hr) as (_ & [w Hw] & He & _).
  pose proof (reachable_exit_inv s Hr) as Hx; unfold exit_inv in Hx.
  exists w; split; [exact Hw|]; split.
  - destruct (exitListener s) as [[w1 t1]|].
    + destruct Hx as [Ht Hw1]; rewrite Hw in Hw1; injection Hw1 as <-.
      split; [intros _; exists t1; reflexivity | intros _; exact Ht].
    + split; [congruence | intros [t1 H]; discriminate H].
  - rewrite He; unfold entry_effect; rewrite Hw.
    destruct (isEntering s); simpl; split; congruence.
Qed.

Lemma listeners_follow_flags_witness :
  exists w, wrapper s_both = Some w /\
    (isTransitioning s_both = true <-> exists t, exitListener s_both = Some (w, t)) /\
    (isEntering s_both = true <-> entryListener s_both = Some w).
Proof.
  apply listeners_follow_flags; apply reachable_run; constructor.
Defined.

(** In a reachable exiting state, the exit animation's end on the wrapper
    always issues exactly one [router.push], to the captured target. *)
Lemma exiting_state_navigates (s : state) (w : nat) :
  reachable s -> isTransitioning s = true -> wrapper s = Some w ->
  exists t, exitListener s = Some (w, t) /\
    snd (step s (AnimationEnd (mkAnimationEvent ANIMATION_SLIDE_OUT w))) = [RouterPush t].
Proof.
  intros Hr Ht Hw.
  destruct (listeners_follow_flags s Hr) as (w' & Hw' & [Hx _] & _).
  rewrite Hw in Hw'; injection Hw' as <-.
  destruct (Hx Ht) as [t Hl]; exists t; split; [exact Hl|].
  simpl; unfold animation_cmds; rewrite Hl.
  unfold exit_handler, entry_handler, createAnimationEndHandler; simpl.
  rewrite Nat.eqb_refl; simpl; destruct (entryListener s); reflexivity.
Qed.

Lemma exiting_state_navigates_witness :
  exists t, exitListener s_both = Some (W, t) /\
    snd (step s_both (AnimationEnd (mkAnimationEvent ANIMATION_SLIDE_OUT W))) = [RouterPush t].
Proof.
  apply exiting_state_navigates;
    [apply reachable_run; constructor | reflexivity | reflexivity].
Defined.

(** ** Path changes and completions *)

(** In a reachable state, any path change to a new path (also one the hook
    did not request, such as the browser's back button) starts the entry
    phase, clears [isTransitioning] and removes the exit listener, so an
    exit animation still in flight no longer navigates; the pending target
    is kept. *)
Lemma path_change_abandons_exit (s : state) (p : string) :
  reachable s -> p <> cur_pathname s ->
  snd (step s (PathChange p)) = [SetIsEntering true; SetIsTransitioning false] /\
  isTransitioning (fst (step s (PathChange p))) = false /\
  isEntering (fst (step s (PathChange p))) = true /\
  exitListener (fst (step s (PathChange p))) = None /\
  pendingPath (fst (step s (PathChange p))) = pendingPath s.
Proof.
  intros Hr Hp.
  destruct (reachable_inv s Hr) as (Hf & _ & _ & _).
  pose proof (reachable_exit_inv s Hr) as Hx.
  destruct s as [t en path loc pend fm wr xl el]; simpl in Hf, Hp; subst fm.
  apply String.eqb_neq in Hp; unfold exit_inv in Hx; simpl in Hx.
  simpl; rewrite Hp; unfold commit; simpl.
  destruct t; simpl; [repeat split|].
  destruct xl as [[w1 t1]|]; [destruct Hx; discriminate|]; repeat split.
Qed.

Lemma path_change_abandons_exit_witness :
  exitListener (fst (step (fst (step s_mounted (Click (home_click here))))
                          (PathChange "/other"))) = None.
Proof.
  apply (path_change_abandons_exit (fst (step s_mounted (Click (home_click here))))
           "/other");
    [constructor; constructor | discriminate].
Defined.

(** The exit completion is not one-shot: it leaves the state exactly as it
    was, so every further matching [animationend] pushes the same target
    again. *)
Lemma exit_completion_repeats (s : state) (w : nat) (t : string) :
  exitListener s = Some (w, t) ->
  fst (step s (AnimationEnd (mkAnimationEvent ANIMATION_SLIDE_OUT w))) = s /\
  snd (run s [AnimationEnd (mkAnimationEvent ANIMATION_SLIDE_OUT w);
              AnimationEnd (mkAnimationEvent ANIMATION_SLIDE_OUT w)])
  = [RouterPush t; RouterPush t].
Proof.
  intros Hl.
  assert (Hc : animation_cmds s (mkAnimationEvent ANIMATION_SLIDE_OUT w) = [RouterPush t]).
  { unfold animation_cmds; rewrite Hl; unfold exit_handler, entry_handler,
      createAnimationEndHandler; simpl; rewrite Nat.eqb_refl; simpl.
    destruct (entryListener s); reflexivity. }
  assert (Hs : fst (step s (AnimationEnd (mkAnimationEvent ANIMATION_SLIDE_OUT w))) = s).
  { simpl; rewrite Hc; unfold commit; simpl; rewrite !Bool.eqb_reflx.
    apply set_listeners_same. }
  assert (Hstep : step s (AnimationEnd (mkAnimationEvent ANIMATION_SLIDE_OUT w))
                  = (s, [RouterPush t])).
  { rewrite (surjective_pairing (step s _)), Hs; f_equal; exact Hc. }
  split; [exact Hs|].
  cbn [run]; rewrite Hstep; cbn [run]; rewrite Hstep; reflexivity.
Qed.

Lemma exit_completion_repeats_witness :
  snd (run (fst (step s_mounted (Click (home_click here))))
           [AnimationEnd (mkAnimationEvent ANIMATION_SLIDE_OUT W);
            AnimationEnd (mkAnimationEvent ANIMATION_SLIDE_OUT W)])
  = [RouterPush "/sample"; RouterPush "/sample"].
Proof.
  apply (exit_completion_repeats (fst (step s_mounted (Click (home_click here)))) W);
    reflexivity.
Defined.

(** A click intercepted during the entry phase, followed by the entry
    completion: the pending target is cleared, yet [isTransitioning] stays
    true and the exit animation's end still navigates to the target captured
    by the exit listener. *)
Lemma entry_completion_keeps_navigation (s : state) (w : nat) :
  reachable s -> isTransitioning s = true -> isEntering s = true -> wrapper s = Some w ->
  pendingPath (fst (step s (AnimationEnd (mkAnimationEvent ANIMATION_SLIDE_IN w)))) = None /\
  isEntering (fst (step s (AnimationEnd (mkAnimationEvent ANIMATION_SLIDE_IN w)))) = false /\
  isTransitioning (fst (step s (AnimationEnd (mkAnimationEvent ANIMATION_SLIDE_IN w)))) = true /\
  exists t, exitListener s = Some (w, t) /\
    snd (step (fst (step s (AnimationEnd (mkAnimationEvent ANIMATION_SLIDE_IN w))))
              (AnimationEnd (mkAnimationEvent ANIMATION_SLIDE_OUT w))) = [RouterPush t].
Proof.
  intros Hr Ht He Hw.
  destruct (listeners_follow_flags s Hr) as (w' & Hw' & [Hx _] & [He' _]).
  rewrite Hw in Hw'; injection Hw' as <-.
  destruct (Hx Ht) as [t Hl]; specialize (He' He).
  assert (Hc : animation_cmds s (mkAnimationEvent ANIMATION_SLIDE_IN w)
               = [SetIsEntering false; SetPendingPath None]).
  { unfold animation_cmds; rewrite Hl, He'; unfold exit_handler, entry_handler,
      createAnimationEndHandler; simpl; rewrite Nat.eqb_refl; reflexivity. }
  simpl; rewrite Hc; unfold commit; simpl; rewrite Ht, He; simpl.
  repeat split; exists t; split; [exact Hl|].
  unfold animation_cmds; simpl; rewrite Hl; unfold exit_handler, entry_handler,
    createAnimationEndHandler; simpl; rewrite Nat.eqb_refl; reflexivity.
Qed.

Lemma entry_completion_keeps_navigation_witness :
  snd (step (fst (step s_both (AnimationEnd (mkAnimationEvent ANIMATION_SLIDE_IN W))))
            (AnimationEnd (mkAnimationEvent ANIMATION_SLIDE_OUT W))) = [RouterPush "/"].
Proof.
  destruct (entry_completion_keeps_navigation s_both W) as (_ & _ & _ & t & Hl & H);
    [apply reachable_run; constructor | reflexivity | reflexivity | reflexivity |].
  rewrite H; vm_compute in Hl; injection Hl as <-; reflexivity.
Defined.

(** ** Clicks *)

Lemma handleClick_ignored_witness :
  step s_mounted (Click [span; anchor (mkUrl "http:" "" "" "localhost" "3000" "/" "?q=1" "#top")])
  = (s_mounted, []).
Proof.
  apply handleClick_ignored; right; right.
  exists (anchor (mkUrl "http:" "" "" "localhost" "3000" "/" "?q=1" "#top")),
         (mkUrl "http:" "" "" "localhost" "3000" "/" "?q=1" "#top").
  split; [reflexivity | split; reflexivity].
Defined.

(** Only the innermost enclosing anchor counts: elements outside it,
    anchors included, never change how a click is handled. *)
Lemma innermost_anchor_decides (s : state) (pre post : list element) (a : element) :
  forallb (fun e => negb (String.eqb (tagName e) "a")) pre = true -> tagName a = "a" ->
  handleClick s (pre ++ a :: post) = handleClick s [a].
Proof.
  intros Hpre Ha.
  assert (H : closest_a (pre ++ a :: post) = Some a).
  { induction pre as [|e pre IH]; simpl.
    - rewrite Ha; reflexivity.
    - simpl in Hpre; apply andb_prop in Hpre as [He Hpre]; apply negb_true_iff in He.
      rewrite He; exact (IH Hpre). }
  unfold handleClick; rewrite H; simpl; rewrite Ha; reflexivity.
Qed.

(** An anchor without [href] around the target hides a navigable link
    further out: the click is not intercepted. *)
Lemma innermost_anchor_decides_witness :
  handleClick s_mounted [span; mkElement "a" HTML None; anchor (at_path "/sample")] = [].
Proof.
  transitivity (handleClick s_mounted [mkElement "a" HTML None]); [|reflexivity].
  apply (innermost_anchor_decides s_mounted [span] [anchor (at_path "/sample")]
           (mkElement "a" HTML None)); reflexivity.
Defined.

(** A same-origin link without credentials to another path, clicked outside
    the exit phase:
    only its path is recorded, and the exit completion navigates to the
    path alone; the link's query string and fragment are dropped. *)
Lemma navigation_drops_query_and_hash (s : state) (w : nat) (u : url) :
  wrapper s = Some w -> isTransitioning s = false ->
  username u = "" -> password u = "" ->
  same_origin u (location s) = true -> pathname u <> cur_pathname s ->
  snd (run s [Click [anchor u]; AnimationEnd (mkAnimationEvent ANIMATION_SLIDE_OUT w)])
  = [PreventDefault; StopPropagation; SetPendingPath (Some (pathname u));
     SetIsTransitioning true; RouterPush (pathname u)].
Proof.
  intros Hw Ht Hun Hpw Ho Hp.
  assert (Hn : isNavigableLink s (anchor u) = Some true).
  { rewrite (isNavigableLink_same_origin s (anchor u) u eq_refl eq_refl Hun Hpw Ho).
    apply String.eqb_neq in Hp; rewrite Hp; reflexivity. }
  assert (Hcl : handleClick s [anchor u] =
    [PreventDefault; StopPropagation; SetPendingPath (Some (pathname u));
     SetIsTransitioning true]).
  { unfold handleClick; cbn -[isNavigableLink]; rewrite Hn; reflexivity. }
  cbn [run step]; rewrite Hcl.
  destruct s as [t en path loc pend fm wr xl el]; simpl in Hw, Ht; subst wr t.
  cbn; unfold exit_handler, createAnimationEndHandler; cbn.
  rewrite Nat.eqb_refl; cbn.
  destruct (if Bool.eqb en en then _ else _); reflexivity.
Qed.

Lemma navigation_drops_query_and_hash_witness :
  snd (run s_mounted [Click [anchor (mkUrl "http:" "" "" "localhost" "3000" "/sample" "?q=1" "#top")];
                      AnimationEnd (mkAnimationEvent ANIMATION_SLIDE_OUT W)])
  = [PreventDefault; StopPropagation; SetPendingPath (Some "/sample");
     SetIsTransitioning true; RouterPush "/sample"].
Proof.
  apply (navigation_drops_query_and_hash s_mounted W
           (mkUrl "http:" "" "" "localhost" "3000" "/sample" "?q=1" "#top"));
    [reflexivity | reflexivity | reflexivity | reflexivity | reflexivity | discriminate].
Defined.

(** ** The application's two pages *)

Section TwoPages.

#[local] Arguments isNavigableLink : simpl never.

Lemma page_link_navigable (s : state) (loc : url) (p : string) :
  protocol (location s) = protocol loc -> hostname (location s) = hostname loc ->
  port (location s) = port loc -> username loc = "" -> password loc = "" ->
  isNavigableLink s (page_link loc p) = Some (negb (String.eqb p (cur_pathname s))).
Proof.
  intros H1 H2 H3 H4 H5; apply isNavigableLink_same_origin with
    (u := mkUrl (protocol loc) (username loc) (password loc) (hostname loc) (port loc) p "" "");
    [reflexivity | reflexivity | exact H4 | exact H5 |].
  unfold same_origin; simpl; rewrite H1, H2, H3, !String.eqb_refl; reflexivity.
Qed.

Lemma run_step_eq (s s1 : state) (c1 : list cmd) (ev : event) (evs : list event) :
  step s ev = (s1, c1) ->
  run s (ev :: evs) = (fst (run s1 evs), (c1 ++ snd (run s1 evs))%list).
Proof.
  intros H; simpl; rewrite H; destruct (run s1 evs); reflexivity.
Qed.

Variables (pr h po : string) (w : nat).

Let loc0 : url := mkUrl pr "" "" h po "/" "" "".
Let loc1 : url := mkUrl pr "" "" h po "/sample" "" "".
Let idle0 : state := mkState false false "/" loc0 None false (Some w) None None.
Let exiting0 : state :=
  mkState true false "/" loc0 (Some "/sample") false (Some w) (Some (w, "/sample")) None.
Let entering1 : state :=
  mkState false true "/sample" loc1 (Some "/sample") false (Some w) None (Some w).
Let idle1 : state := mkState false false "/sample" loc1 None false (Some w) None None.
Let exiting1 : state :=
  mkState true false "/sample" loc1 (Some "/") false (Some w) (Some (w, "/")) None.
Let entering0 : state :=
  mkState false true "/" loc0 (Some "/") false (Some w) None (Some w).

Ltac step_eq :=
  unfold step, handleClick, home_click, sample_click, page_click, animation_cmds,
    exit_handler, entry_handler, createAnimationEndHandler;
  cbn -[isNavigableLink];
  rewrite ?page_link_navigable by reflexivity; rewrite ?Nat.eqb_refl; reflexivity.

Lemma mount_idle0 : mount loc0 w = idle0.
Proof. reflexivity. Qed.

Lemma step_home_click :
  step idle0 (Click (home_click loc0)) =
    (exiting0, [PreventDefault; StopPropagation; SetPendingPath (Some "/sample");
                SetIsTransitioning true]).
Proof. step_eq. Qed.

Lemma step_exit0 :
  step exiting0 (AnimationEnd (mkAnimationEvent ANIMATION_SLIDE_OUT w)) =
    (exiting0, [RouterPush "/sample"]).
Proof. step_eq. Qed.

Lemma step_path1 :
  step exiting0 (PathChange "/sample") =
    (entering1, [SetIsEntering true; SetIsTransitioning false]).
Proof. step_eq. Qed.

Lemma step_entry1 :
  step entering1 (AnimationEnd (mkAnimationEvent ANIMATION_SLIDE_IN w)) =
    (idle1, [SetIsEntering false; SetPendingPath None]).
Proof. step_eq. Qed.

Lemma step_sample_click :
  step idle1 (Click (sample_click loc1)) =
    (exiting1, [PreventDefault; StopPropagation; SetPendingPath (Some "/");
                SetIsTransitioning true]).
Proof. step_eq. Qed.

Lemma step_exit1 :
  step exiting1 (AnimationEnd (mkAnimationEvent ANIMATION_SLIDE_OUT w)) =
    (exiting1, [RouterPush "/"]).
Proof. step_eq. Qed.

Lemma step_path0 :
  step exiting1 (PathChange "/") =
    (entering0, [SetIsEntering true; SetIsTransitioning false]).
Proof. step_eq. Qed.

Lemma step_entry0 :
  step entering0 (AnimationEnd (mkAnimationEvent ANIMATION_SLIDE_IN w)) =
    (idle0, [SetIsEntering false; SetPendingPath None]).
Proof. step_eq. Qed.

(** Mounted at [/] of any origin, following [Home]'s link to [/sample] and
    then [SamplePage]'s link back to [/], each with its exit animation, the
    router's path change and the entry animation, navigates to [/sample]
    and then to [/] and ends in exactly the state right after mount. *)
Lemma two_page_cycle :
  run (mount loc0 w)
    [Click (home_click loc0);
     AnimationEnd (mkAnimationEvent ANIMATION_SLIDE_OUT w);
     PathChange "/sample";
     AnimationEnd (mkAnimationEvent ANIMATION_SLIDE_IN w);
     Click (sample_click loc1);
     AnimationEnd (mkAnimationEvent ANIMATION_SLIDE_OUT w);
     PathChange "/";
     AnimationEnd (mkAnimationEvent ANIMATION_SLIDE_IN w)]
  = (mount loc0 w,
     [PreventDefault; StopPropagation; SetPendingPath (Some "/sample");
      SetIsTransitioning true; RouterPush "/sample";
      SetIsEntering true; SetIsTransitioning false;
      SetIsEntering false; SetPendingPath None;
      PreventDefault; StopPropagation; SetPendingPath (Some "/");
      SetIsTransitioning true; RouterPush "/";
      SetIsEntering true; SetIsTransitioning false;
      SetIsEntering false; SetPendingPath None]).
Proof.
  rewrite mount_idle0.
  rewrite (run_step_eq _ _ _ _ _ step_home_click), (run_step_eq _ _ _ _ _ step_exit0),
    (run_step_eq _ _ _ _ _ step_path1), (run_step_eq _ _ _ _ _ step_entry1),
    (run_step_eq _ _ _ _ _ step_sample_click), (run_step_eq _ _ _ _ _ step_exit1),
    (run_step_eq _ _ _ _ _ step_path0), (run_step_eq _ _ _ _ _ step_entry0).
  reflexivity.
Qed.

End TwoPages.
